(** * A shallow embedding of [main.py] of the LinkedIn voice-memo web app

    The development covers the processing core of the program:
    - [get_next_unprocessed_record] (the Record Locator),
    - [split_audio] (the Chunk Splitter),
    - [transcribe_audio] (the Transcription Engine).

    Python values are modelled as follows.
    - Python strings are Rocq [string]s (ASCII); [str.strip] removes the
      characters for which Python's [str.isspace] holds in that range.
    - A Python exception is a [Raise] of an [py_exn]; the effects of the
      code (the spreadsheet it reads, the files it creates and deletes, the
      calls it makes to the speech-to-text service) are threaded through a
      small state-and-exception monad [M] over a [world].
    - Python's integer arithmetic is [Z]; [int(a / b)] on the float quotient
      of the byte ceiling by the frame volume is [Z.quot a b] (for operands
      below 2^53 the float quotient is never rounded across an integer).
    - A decoded [AudioSegment] is a window [from_ms, to_ms) onto a source
      recording, with its frame rate and frame width; [len(audio)] is the
      width of the window in milliseconds. *)

From Stdlib Require Import ZArith Lia List Ascii String.
From stdpp Require Import base gmap strings pretty.

Import ListNotations.
Open Scope string_scope.
Open Scope Z_scope.

(* ================================================================== *)
(** ** Python values and exceptions *)

Inductive py_exn :=
| IndexError
| ValueError
| ZeroDivisionError
| FileNotFoundError
| ServiceError.

Inductive result (A : Type) :=
| Ok (a : A)
| Raise (e : py_exn).
Arguments Ok {A} a.
Arguments Raise {A} e.

(** [lst[j]] on a Python list: negative indices count from the end,
    anything else out of range raises [IndexError]. *)
Definition py_getitem {A} (l : list A) (j : Z) : result A :=
  let n := Z.of_nat (length l) in
  if (0 <=? j) && (j <? n) then
    match nth_error l (Z.to_nat j) with Some x => Ok x | None => Raise IndexError end
  else if (- n <=? j) && (j <? 0) then
    match nth_error l (Z.to_nat (n + j)) with Some x => Ok x | None => Raise IndexError end
  else Raise IndexError.

(** [str.isspace] on one ASCII character: \t \n \v \f \r, the separators
    \x1c-\x1f and the space. *)
Definition py_isspace (c : ascii) : bool :=
  let n := nat_of_ascii c in
  ((9 <=? n) && (n <=? 13))%nat || ((28 <=? n) && (n <=? 32))%nat.

Fixpoint py_lstrip (s : string) : string :=
  match s with
  | EmptyString => EmptyString
  | String c s' => if py_isspace c then py_lstrip s' else s
  end.

Fixpoint drop_spaces (l : list ascii) : list ascii :=
  match l with
  | [] => []
  | c :: l' => if py_isspace c then drop_spaces l' else l
  end.

Definition py_rstrip (s : string) : string :=
  string_of_list_ascii (rev (drop_spaces (rev (list_ascii_of_string s)))).

(** [s.strip()] *)
Definition py_strip (s : string) : string := py_rstrip (py_lstrip s).

(** Truthiness of a Python string: [not s] holds exactly for [""]. *)
Definition py_str_empty (s : string) : bool :=
  match s with EmptyString => true | _ => false end.

(* ================================================================== *)
(** ** The world the program runs against, and the monad over it *)

(** A file on disk: its encoded byte size and the audio it decodes to. *)
Record audio := mk_audio {
  origin : string;        (** the recording the segment is a window onto *)
  frame_rate : Z;
  frame_width : Z;
  from_ms : Z;
  to_ms : Z
}.

Record file := mk_file {
  size : Z;
  audio_of : audio
}.

(** Calls to collaborators, recorded in order. *)
Inductive event :=
| ev_split (path : string)         (** [split_audio(path)] is entered *)
| ev_transcribe (path : string).   (** the speech-to-text service is called
                                       on the file opened at [path] *)

Record world := mk_world {
  sheet : list (list string);      (** the worksheet, as [get_all_values] *)
  fs : gmap string file;           (** the file system *)
  log : list event
}.

Definition M (A : Type) : Type := world -> result A * world.

Definition ret {A} (x : A) : M A := fun w => (Ok x, w).
Definition raise {A} (e : py_exn) : M A := fun w => (Raise e, w).
Definition bind {A B} (m : M A) (k : A -> M B) : M B :=
  fun w => match m w with
           | (Ok x, w') => k x w'
           | (Raise e, w') => (Raise e, w')
           end.
Definition lift {A} (r : result A) : M A :=
  match r with Ok x => ret x | Raise e => raise e end.

Notation "'let*' x := m 'in' k" := (bind m (fun x => k))
  (at level 200, x name, m at level 100, k at level 200).

(* ================================================================== *)
(** ** Record Locator: [get_next_unprocessed_record] *)

Record record := mk_record {
  row : Z;
  url : string;
  company : string;
  connected_on : string;
  first_name : string;
  last_name : string;
  recording : string
}.

(** [row_values[n] if len(row_values) > n else ""] *)
Definition field_or_empty (row_values : list string) (n : nat) : string :=
  if (n <? length row_values)%nat then nth n row_values "" else "".

(** [len(row_values) < 6 or not row_values[5].strip()] (the [or] short
    circuits, so [row_values[5]] is only read when it exists). *)
Definition unprocessed (row_values : list string) : bool :=
  (length row_values <? 6)%nat || py_str_empty (py_strip (nth 5 row_values "")).

(** The dictionary built for row [i]. *)
Definition payload (i : Z) (row_values : list string) : record := {|
  row := i;
  url := field_or_empty row_values 0;
  company := field_or_empty row_values 1;
  connected_on := field_or_empty row_values 2;
  first_name := field_or_empty row_values 3;
  last_name := field_or_empty row_values 4;
  recording := field_or_empty row_values 5
|}.

(** The loop [for i in range(i, ...)] with [fuel] iterations left;
    [None] is the empty dictionary [{}]. *)
Fixpoint scan (values : list (list string)) (i : Z) (fuel : nat)
  : result (option record) :=
  match fuel with
  | O => Ok None
  | S fuel' =>
      match py_getitem values (i - 1) with
      | Raise e => Raise e
      | Ok row_values =>
          if unprocessed row_values then Ok (Some (payload i row_values))
          else scan values (i + 1) fuel'
      end
  end.

(** Number of elements of [range(a, b)]. *)
Definition range_len (a b : Z) : nat := Z.to_nat (b - a).

(** The body of [get_next_unprocessed_record] once the table is fetched. *)
Definition locate (values : list (list string)) (current_row : Z)
  : result (option record) :=
  scan values (current_row + 1)
       (range_len (current_row + 1) (Z.of_nat (length values) + 1)).

(** [worksheet.get_all_values()]: a fresh full fetch of the table. *)
Definition get_all_values : M (list (list string)) :=
  fun w => (Ok (sheet w), w).

Definition get_next_unprocessed_record (current_row : Z) : M (option record) :=
  let* values := get_all_values in
  lift (locate values current_row).

(* ================================================================== *)
(** ** Files, audio segments and the speech-to-text service *)

Definition newline : string := String (ascii_of_nat 10) EmptyString.

(** [range(start, stop, step)]: a zero step raises [ValueError]. *)
Definition py_range (start stop step : Z) : result (list Z) :=
  if step =? 0 then Raise ValueError
  else if 0 <? step then
    Ok (map (fun k => start + Z.of_nat k * step)
            (seq 0 (Z.to_nat ((stop - start + step - 1) / step))))
  else
    Ok (map (fun k => start + Z.of_nat k * step)
            (seq 0 (Z.to_nat ((start - stop - step - 1) / (- step))))).

(** [len(audio)] in milliseconds. *)
Definition audio_len (a : audio) : Z := to_ms a - from_ms a.

(** [audio[s:e]]: pydub clamps both bounds to [len(audio)]. *)
Definition slice (a : audio) (s e : Z) : audio := {|
  origin := origin a;
  frame_rate := frame_rate a;
  frame_width := frame_width a;
  from_ms := from_ms a + Z.min s (audio_len a);
  to_ms := from_ms a + Z.min e (audio_len a)
|}.

(** [int((max_size_mb * 1024 * 1024) / (audio.frame_rate * audio.frame_width)) * 1000];
    a zero frame volume makes the float division raise. *)
Definition chunk_size_ms (max_size_mb : Z) (a : audio) : result Z :=
  let volume := frame_rate a * frame_width a in
  if volume =? 0 then Raise ZeroDivisionError
  else Ok (Z.quot (max_size_mb * 1024 * 1024) volume * 1000).

(** [f"{file_path}_chunk{n}.mp3"] *)
Definition chunk_name (file_path : string) (n : Z) : string :=
  file_path ++ "_chunk" ++ pretty n ++ ".mp3".

Definition log_event (e : event) : M unit :=
  fun w => (Ok tt, {| sheet := sheet w; fs := fs w; log := log w ++ [e] |}).

(** Reading a file ([open(path, "rb")], [AudioSegment.from_file(path)],
    [os.path.getsize(path)]): a missing file raises. *)
Definition read_file (path : string) : M file :=
  fun w => match fs w !! path with
           | Some f => (Ok f, w)
           | None => (Raise FileNotFoundError, w)
           end.

(** [os.path.getsize(path)] *)
Definition getsize (path : string) : M Z :=
  let* f := read_file path in ret (size f).

(** [os.remove(path)] *)
Definition os_remove (path : string) : M unit :=
  fun w => match fs w !! path with
           | Some _ => (Ok tt, {| sheet := sheet w; fs := delete path (fs w);
                                  log := log w |})
           | None => (Raise FileNotFoundError, w)
           end.

Section Pipeline.

(** The mp3 encoder used by [chunk.export(path, format="mp3")]: the file it
    writes for a segment. *)
Variable mp3_export : audio -> file.

(** The speech-to-text service on an opened file: the text of its plain-text
    response, or [None] when the call raises. *)
Variable whisper : file -> option string.

(** [chunk.export(chunk_path, format="mp3")]: creates or overwrites. *)
Definition export (path : string) (a : audio) : M unit :=
  fun w => (Ok tt, {| sheet := sheet w; fs := <[path := mp3_export a]> (fs w);
                      log := log w |}).

(** [with open(path, "rb") as audio_file:
       client.audio.transcriptions.create(model="whisper-1", file=audio_file,
                                          response_format="text")] *)
Definition transcriptions_create (path : string) : M string :=
  let* f := read_file path in
  let* _ := log_event (ev_transcribe path) in
  match whisper f with
  | Some t => ret t
  | None => raise ServiceError
  end.

(** The loop [for i in range(0, total_length_ms, chunk_size_ms)] of
    [split_audio]. *)
Fixpoint split_loop (file_path : string) (a : audio) (chunk_ms : Z)
    (is : list Z) (chunks : list string) : M (list string) :=
  match is with
  | [] => ret chunks
  | i :: is' =>
      let chunk := slice a i (i + chunk_ms) in
      let chunk_path := chunk_name file_path (i / chunk_ms) in
      let* _ := export chunk_path chunk in
      split_loop file_path a chunk_ms is' (chunks ++ [chunk_path])
  end.

Definition split_audio (file_path : string) (max_size_mb : Z) : M (list string) :=
  let* _ := log_event (ev_split file_path) in
  let* f := read_file file_path in
  let a := audio_of f in
  let total_length_ms := audio_len a in
  let* chunk_ms := lift (chunk_size_ms max_size_mb a) in
  let* is := lift (py_range 0 total_length_ms chunk_ms) in
  split_loop file_path a chunk_ms is [].

(** The loop [for chunk in chunks] of [transcribe_audio]. *)
Fixpoint transcribe_chunks (chunks : list string) (transcription_text : string)
  : M string :=
  match chunks with
  | [] => ret transcription_text
  | chunk :: rest =>
      let* transcription := transcriptions_create chunk in
      let* _ := os_remove chunk in
      transcribe_chunks rest (transcription_text ++ transcription ++ newline)
  end.

(** [file_size_mb = size / (1024 * 1024)] is exact in floating point, so
    [file_size_mb > 25] is [size > 25 * 1024 * 1024]. *)
Definition over_limit (sz : Z) : bool := 25 * 1024 * 1024 <? sz.

Definition transcribe_audio (file_path : string) : M string :=
  let* file_size := getsize file_path in
  if over_limit file_size then
    let* chunks := split_audio file_path 25 in
    let* transcription_text := transcribe_chunks chunks "" in
    ret (py_strip transcription_text)
  else
    transcriptions_create file_path.

End Pipeline.

(* ================================================================== *)
(** ** Vocabulary of the statements *)

(** A row of the table at a 1-based row index. *)
Definition row_at (values : list (list string)) (i : Z) : option (list string) :=
  if 1 <=? i then nth_error values (Z.to_nat (i - 1)) else None.

(** A row shorter than six columns, padded with empty cells up to column F. *)
Definition pad6 (row_values : list string) : list string :=
  if (length row_values <? 6)%nat
  then row_values ++ repeat "" (6 - length row_values)
  else row_values.

(** The chunks [split_audio] plans for the slice starts [is]: the path it
    exports each one to and the segment it exports there. *)
Definition chunk_plan (file_path : string) (a : audio) (chunk_ms : Z) (is : list Z)
  : list (string * audio) :=
  map (fun i => (chunk_name file_path (i / chunk_ms), slice a i (i + chunk_ms))) is.

(** The file system after exporting the planned chunks in order. *)
Definition exports (mp3_export : audio -> file) (plan : list (string * audio))
    (m : gmap string file) : gmap string file :=
  fold_left (fun m pa => <[fst pa := mp3_export (snd pa)]> m) plan m.

(** [t1 + "\n" + t2 + "\n" + ...]: each text followed by a newline. *)
Fixpoint join_lines (ts : list string) : string :=
  match ts with
  | [] => ""
  | t :: ts' => t ++ newline ++ join_lines ts'
  end.

(** The file system after [os.remove] of each path in turn. *)
Definition removes (ps : list string) (m : gmap string file) : gmap string file :=
  fold_left (fun m p => delete p m) ps m.

Definition hdr6 : list string :=
  ["url"; "company"; "connected_on"; "first_name"; "last_name"; "recording"].

(** Concrete inputs for the pipeline: a 60 MiB, 44.1 kHz, 16-bit stereo
    recording of 356 s, a 1 s recording of 64 channels of 32-bit samples
    at 192 kHz, an mp3 encoder and mocked speech-to-text services. *)
Definition memo_audio : audio := mk_audio "memo.webm" 44100 4 0 356000.

Definition memo_world : world :=
  mk_world [] {[ "memo.webm" := mk_file (60 * 1024 * 1024) memo_audio ]} [].

Definition wide_audio : audio := mk_audio "wide.wav" 192000 256 0 1000.

Definition wide_world : world :=
  mk_world [] {[ "wide.wav" := mk_file (192000 * 256) wide_audio ]} [].

Definition short_world : world :=
  mk_world [] {[ "short.webm" := mk_file 4096 (mk_audio "short.webm" 48000 2 0 5000) ]} [].

Definition mock_export (a : audio) : file := mk_file (audio_len a * 16) a.

(** Answers by the position of the chunk in the source recording. *)
Definition mock_whisper (first : string) (f : file) : option string :=
  let a := audio_of f in
  if from_ms a =? 0 then Some first
  else if from_ms a =? 148000 then Some "second"
  else Some "third".

(* ================================================================== *)
(** ** Write-back, endpoints and the background task *)

Fixpoint update_nth {A} (n : nat) (f : A -> A) (l : list A) : list A :=
  match l, n with
  | [], _ => []
  | x :: l', O => f x :: l'
  | x :: l', S n' => x :: update_nth n' f l'
  end.

Fixpoint set_nth {A} (n : nat) (v : A) (l : list A) : list A :=
  match l, n with
  | [], _ => []
  | _ :: l', O => v :: l'
  | x :: l', S n' => x :: set_nth n' v l'
  end.

(** A row after its column F is written with [v]: cells missing before F
    read back as empty strings. *)
Definition set_F_row (row_values : list string) (v : string) : list string :=
  set_nth 5 v (row_values ++ repeat "" (6 - length row_values)).

(** The table, as [get_all_values] returns it, after the cell [F{r}]
    ([r >= 1]) is set to [v]; rows missing before row [r] read back empty. *)
Definition set_F (values : list (list string)) (r : Z) (v : string)
  : list (list string) :=
  let i := Z.to_nat (r - 1) in
  update_nth i (fun rv => set_F_row rv v) (values ++ repeat [] (S i - length values)).

(** Outcome of a background task: it finishes, raises a Python exception,
    or is refused by gspread because ["F{row}"] is not a cell label (a row
    number below 1). *)
Inductive task_outcome :=
| TaskDone
| TaskFailed (e : py_exn)
| TaskBadCell.

(** The response of the [/done] endpoint. *)
Inductive response :=
| NextRecord (r : record)
| NoMoreRecords.   (** [{"message": "No more unprocessed records."}] *)

(** [open(path, "wb").write(data)] for a new temporary file. *)
Definition write_file (path : string) (f : file) : M unit :=
  fun w => (Ok tt, {| sheet := sheet w; fs := <[path := f]> (fs w); log := log w |}).

(** [read_index]: the record shown first, found from row 1; the template
    rendering is left out. *)
Definition read_index : M (option record) := get_next_unprocessed_record 1.

(** [done] up to its return: the upload is saved to [tmp_path] (the name
    [tempfile] picks), then the next record is looked up from [current_row].
    The transcription task it schedules is run by [done_request], after the
    response, as FastAPI runs background tasks. *)
Definition done (tmp_path : string) (upload : file) (current_row : Z) : M response :=
  let* _ := write_file tmp_path upload in
  let* next_record := get_next_unprocessed_record current_row in
  match next_record with
  | None => ret NoMoreRecords
  | Some r => ret (NextRecord r)
  end.

Section App.

Variable mp3_export : audio -> file.
Variable whisper : file -> option string.

(** How the sheet reads back a string written with [update_acell]
    (gspread writes with the [USER_ENTERED] option, so the sheet may parse
    numbers or formulas; plain text reads back as it is). *)
Variable rendered : string -> string.

(** [worksheet.update_acell(f"F{row}", value)] *)
Definition update_acell_F (r : Z) (value : string) (w : world) : task_outcome * world :=
  if 1 <=? r then
    (TaskDone, {| sheet := set_F (sheet w) r (rendered value); fs := fs w; log := log w |})
  else (TaskBadCell, w).

(** [process_transcription(file_path, row)] *)
Definition process_transcription (file_path : string) (r : Z) (w : world)
  : task_outcome * world :=
  match transcribe_audio mp3_export whisper file_path w with
  | (Raise e, w1) => (TaskFailed e, w1)
  | (Ok transcription_text, w1) => update_acell_F r transcription_text w1
  end.

(** A [/done] request followed by its background task; the task is only
    run when the endpoint returns a response. *)
Definition done_request (tmp_path : string) (upload : file) (current_row : Z)
    (w : world) : result response * option task_outcome * world :=
  match done tmp_path upload current_row w with
  | (Raise e, w1) => (Raise e, None, w1)
  | (Ok resp, w1) =>
      let (out, w2) := process_transcription tmp_path current_row w1 in
      (Ok resp, Some out, w2)
  end.

End App.

(* ================================================================== *)
(** * Properties of the Record Locator *)

Module Locator.

Lemma py_getitem_in {A} (l : list A) (j : Z) :
  0 <= j < Z.of_nat (length l) ->
  exists x, nth_error l (Z.to_nat j) = Some x /\ py_getitem l j = Ok x.
Proof.
  intros Hj. unfold py_getitem. cbv zeta.
  destruct (nth_error l (Z.to_nat j)) as [x|] eqn:E.
  - exists x. split; [reflexivity|].
    replace ((0 <=? j) && (j <? Z.of_nat (length l))) with true
      by (symmetry; apply andb_true_iff; split; [apply Z.leb_le|apply Z.ltb_lt]; lia).
    reflexivity.
  - apply nth_error_None in E. lia.
Qed.

Lemma py_getitem_map {A B} (f : A -> B) (l : list A) (j : Z) :
  py_getitem (map f l) j =
  match py_getitem l j with Ok x => Ok (f x) | Raise e => Raise e end.
Proof.
  unfold py_getitem. cbv zeta. rewrite length_map.
  destruct ((0 <=? j) && (j <? Z.of_nat (length l))).
  - rewrite nth_error_map. now destruct (nth_error l _).
  - destruct ((- Z.of_nat (length l) <=? j) && (j <? 0)); [|reflexivity].
    rewrite nth_error_map. now destruct (nth_error l _).
Qed.

(** The loop visits rows [i .. i + n - 1], all of which exist, and stops at
    the first unprocessed one. *)
Lemma scan_first (values : list (list string)) (n : nat) :
  forall i, 1 <= i -> i + Z.of_nat n - 1 <= Z.of_nat (length values) ->
  (exists j rv, scan values i n = Ok (Some (payload j rv)) /\
     i <= j < i + Z.of_nat n /\ row_at values j = Some rv /\
     unprocessed rv = true /\
     (forall j' rv', i <= j' < j -> row_at values j' = Some rv' ->
        unprocessed rv' = false))
  \/
  (scan values i n = Ok None /\
     forall j' rv', i <= j' < i + Z.of_nat n -> row_at values j' = Some rv' ->
        unprocessed rv' = false).
Proof.
  induction n as [|n IH]; intros i Hi Hn.
  - right. split; [reflexivity|]. intros. lia.
  - destruct (py_getitem_in values (i - 1)) as [rv [Hnth Hget]]; [lia|].
    assert (Hrow : row_at values i = Some rv).
    { unfold row_at. replace (1 <=? i) with true by (symmetry; apply Z.leb_le; lia).
      exact Hnth. }
    simpl. rewrite Hget.
    destruct (unprocessed rv) eqn:Hu.
    + left. exists i, rv. repeat split; try reflexivity; try lia; auto.
    + destruct (IH (i + 1)) as [[j [rv' [Hs [Hj [Hr [Hu' Hbefore]]]]]] | [Hs Hnone]];
        [lia|lia| |].
      * left. exists j, rv'. repeat split; auto; try lia.
        intros j' rv'' Hj' Hr'.
        destruct (Z.eq_dec j' i) as [->|Hne].
        -- rewrite Hrow in Hr'. injection Hr' as <-. exact Hu.
        -- apply (Hbefore j'); [lia|exact Hr'].
      * right. split; [exact Hs|].
        intros j' rv'' Hj' Hr'.
        destruct (Z.eq_dec j' i) as [->|Hne].
        -- rewrite Hrow in Hr'. injection Hr' as <-. exact Hu.
        -- apply (Hnone j'); [lia|exact Hr'].
Qed.

(** Whatever the loop returns is the payload of an unprocessed row. *)
Lemma scan_found (values : list (list string)) (n : nat) :
  forall i r, scan values i n = Ok (Some r) ->
  exists j rv, r = payload j rv /\ i <= j /\ unprocessed rv = true.
Proof.
  induction n as [|n IH]; intros i r Hs; simpl in Hs; [discriminate|].
  destruct (py_getitem values (i - 1)) as [rv|e]; [|discriminate].
  destruct (unprocessed rv) eqn:Hu.
  - injection Hs as <-. exists i, rv. repeat split; auto; lia.
  - destruct (IH (i + 1) r Hs) as [j [rv' [-> [Hj Hu']]]].
    exists j, rv'. repeat split; auto; lia.
Qed.

Lemma pad6_unprocessed (rv : list string) : unprocessed (pad6 rv) = unprocessed rv.
Proof.
  unfold pad6. destruct (length rv <? 6)%nat eqn:Hl; [|reflexivity].
  apply Nat.ltb_lt in Hl. unfold unprocessed.
  rewrite length_app, repeat_length.
  replace (length rv <? 6)%nat with true by (symmetry; apply Nat.ltb_lt; exact Hl).
  rewrite app_nth2 by lia. rewrite nth_repeat.
  now rewrite orb_true_r.
Qed.

Lemma pad6_field (rv : list string) (n : nat) :
  (n < 6)%nat -> field_or_empty (pad6 rv) n = field_or_empty rv n.
Proof.
  intros Hn. unfold pad6, field_or_empty.
  destruct (length rv <? 6)%nat eqn:Hl; [|reflexivity].
  apply Nat.ltb_lt in Hl. rewrite length_app, repeat_length.
  replace (n <? length rv + (6 - length rv))%nat with true
    by (symmetry; apply Nat.ltb_lt; lia).
  destruct (n <? length rv)%nat eqn:Hn'.
  - apply Nat.ltb_lt in Hn'. now rewrite app_nth1.
  - apply Nat.ltb_ge in Hn'. rewrite app_nth2 by lia. apply nth_repeat.
Qed.

Lemma pad6_payload (i : Z) (rv : list string) : payload i (pad6 rv) = payload i rv.
Proof.
  unfold payload. rewrite !pad6_field by lia. reflexivity.
Qed.

Lemma scan_pad6 (values : list (list string)) (n : nat) :
  forall i, scan (map pad6 values) i n = scan values i n.
Proof.
  induction n as [|n IH]; intros i; [reflexivity|].
  simpl. rewrite py_getitem_map.
  destruct (py_getitem values (i - 1)) as [rv|e]; [|reflexivity].
  rewrite pad6_unprocessed, pad6_payload. now rewrite IH.
Qed.

Lemma py_strip_empty : py_strip "" = "".
Proof. reflexivity. Qed.

Lemma py_str_empty_eq (s : string) : py_str_empty s = true -> s = "".
Proof. destruct s; [reflexivity|discriminate]. Qed.

End Locator.

(* ================================================================== *)
(** * Claims about the Record Locator *)

(** C1 (amended). For every table and every starting row number [k >= 0],
    [get_next_unprocessed_record] returns the smallest row index [i > k]
    whose row has fewer than 6 columns or a blank column F, with that row's
    fields (missing trailing columns as empty strings); if there is no such
    row, including when [k] is at or past the last row, it returns the empty
    "no record" dictionary and never raises. *)
Theorem locate_first_unprocessed (values : list (list string)) (k : Z) :
  0 <= k ->
  (exists i rv, locate values k = Ok (Some (payload i rv)) /\
     k < i <= Z.of_nat (length values) /\ row_at values i = Some rv /\
     unprocessed rv = true /\
     (forall j rj, k < j < i -> row_at values j = Some rj ->
        unprocessed rj = false))
  \/
  (locate values k = Ok None /\
     forall j rj, k < j -> row_at values j = Some rj ->
        unprocessed rj = false).
Proof.
  intros Hk. unfold locate, range_len.
  destruct (Z_lt_le_dec k (Z.of_nat (length values))) as [Hlt|Hge].
  - destruct (Locator.scan_first values
                (Z.to_nat (Z.of_nat (length values) + 1 - (k + 1))) (k + 1))
      as [[i [rv [Hs [Hi [Hr [Hu Hb]]]]]] | [Hs Hn]]; [lia|lia| |].
    + left. exists i, rv. rewrite Z2Nat.id in Hi by lia.
      repeat split; auto; try lia.
      intros j rj Hj. apply Hb. lia.
    + right. split; [exact Hs|].
      intros j rj Hj Hr. apply (Hn j); [|exact Hr].
      rewrite Z2Nat.id by lia. split; [lia|].
      unfold row_at in Hr.
      destruct (1 <=? j); [|discriminate].
      assert (Z.to_nat (j - 1) < length values)%nat
        by (apply nth_error_Some; rewrite Hr; discriminate).
      lia.
  - right. replace (Z.to_nat (Z.of_nat (length values) + 1 - (k + 1))) with 0%nat by lia.
    split; [reflexivity|].
    intros j rj Hj Hr. unfold row_at in Hr.
    destruct (1 <=? j); [|discriminate].
    rewrite (proj2 (nth_error_None values (Z.to_nat (j - 1)))) in Hr;
      [discriminate|lia].
Qed.

(** Witness of C1 on a table whose rows 2 and 3 are processed and whose row
    4 has only one column. *)
Lemma locate_first_unprocessed_witness :
  0 <= 1 /\
  ((exists i rv,
      locate [hdr6; ["a"; "b"; "c"; "d"; "e"; "memo"]; ["x"]] 1 = Ok (Some (payload i rv)) /\
      1 < i <= Z.of_nat (length [hdr6; ["a"; "b"; "c"; "d"; "e"; "memo"]; ["x"]]) /\
      row_at [hdr6; ["a"; "b"; "c"; "d"; "e"; "memo"]; ["x"]] i = Some rv /\
      unprocessed rv = true /\
      (forall j rj, 1 < j < i ->
         row_at [hdr6; ["a"; "b"; "c"; "d"; "e"; "memo"]; ["x"]] j = Some rj ->
         unprocessed rj = false))
   \/
   (locate [hdr6; ["a"; "b"; "c"; "d"; "e"; "memo"]; ["x"]] 1 = Ok None /\
      forall j rj, 1 < j ->
        row_at [hdr6; ["a"; "b"; "c"; "d"; "e"; "memo"]; ["x"]] j = Some rj ->
        unprocessed rj = false)).
Proof.
  split; [lia|].
  apply (locate_first_unprocessed [hdr6; ["a"; "b"; "c"; "d"; "e"; "memo"]; ["x"]] 1).
  lia.
Defined.

(** C1 counterexample: with a negative starting row the loop indexes the
    table with Python's negative indices; from [k = -3] on a two-row table it
    reads [values[-3]], which raises [IndexError] instead of returning a
    record or the "no record" dictionary. *)
Lemma locate_negative_start_raises :
  locate [hdr6; ["a"; "b"; "c"; "d"; "e"; ""]] (-3) = Raise IndexError.
Proof. reflexivity. Qed.

(** C2 (amended). The header is excluded only by the starting row number:
    for every starting row [k >= 1], the row index of any record returned by
    [get_next_unprocessed_record] is at least [k + 1], hence at least 2. *)
Theorem locate_skips_header (values : list (list string)) (k : Z) (r : record) :
  1 <= k -> locate values k = Ok (Some r) -> k + 1 <= row r /\ 2 <= row r.
Proof.
  intros Hk Hl. unfold locate in Hl.
  destruct (Locator.scan_found _ _ _ _ Hl) as [j [rv [-> [Hj _]]]].
  simpl. lia.
Qed.

Lemma locate_skips_header_witness :
  1 <= 1 /\ locate [hdr6; ["a"; "b"; "c"; "d"; "e"; ""]] 1 =
              Ok (Some (payload 2 ["a"; "b"; "c"; "d"; "e"; ""])) /\
  1 + 1 <= row (payload 2 ["a"; "b"; "c"; "d"; "e"; ""]) /\
  2 <= row (payload 2 ["a"; "b"; "c"; "d"; "e"; ""]).
Proof.
  assert (H : locate [hdr6; ["a"; "b"; "c"; "d"; "e"; ""]] 1 =
              Ok (Some (payload 2 ["a"; "b"; "c"; "d"; "e"; ""]))) by reflexivity.
  split; [lia|]. split; [exact H|].
  apply (locate_skips_header [hdr6; ["a"; "b"; "c"; "d"; "e"; ""]] 1); [lia|exact H].
Defined.

(** C2 counterexample: from starting row 0, a header with only five
    columns is itself returned, as row 1. *)
Lemma locate_header_returned_from_zero :
  locate [["url"; "company"; "connected_on"; "first_name"; "last_name"];
          ["a"; "b"; "c"; "d"; "e"; "memo"]] 0 =
  Ok (Some (payload 1 ["url"; "company"; "connected_on"; "first_name"; "last_name"])) /\
  row (payload 1 ["url"; "company"; "connected_on"; "first_name"; "last_name"]) = 1.
Proof. split; reflexivity. Qed.

(** C7. A row with fewer than 6 columns is treated exactly as the same row
    padded with empty cells up to an empty column F: padding every short row
    of the table changes neither which row [get_next_unprocessed_record]
    selects nor the payload it returns, for every starting row. *)
Theorem locate_short_row_as_empty_f (values : list (list string)) (k : Z) :
  (forall rv, (length rv < 6)%nat ->
     length (pad6 rv) = 6%nat /\ nth 5 (pad6 rv) "" = "") /\
  locate (map pad6 values) k = locate values k.
Proof.
  split.
  - intros rv Hl. unfold pad6.
    replace (length rv <? 6)%nat with true by (symmetry; apply Nat.ltb_lt; exact Hl).
    rewrite length_app, repeat_length. split; [lia|].
    rewrite app_nth2 by lia. apply nth_repeat.
  - unfold locate. rewrite length_map. apply Locator.scan_pad6.
Qed.

(** C9. Calling [get_next_unprocessed_record] twice with the same starting
    row against the same table gives the same result both times: the call
    only reads the table and leaves the world unchanged. *)
Theorem get_next_deterministic (k : Z) (w : world) :
  let (r1, w1) := get_next_unprocessed_record k w in
  let (r2, w2) := get_next_unprocessed_record k w1 in
  r1 = r2 /\ w1 = w /\ w2 = w.
Proof.
  unfold get_next_unprocessed_record, bind, get_all_values, lift.
  destruct (locate (sheet w) k) eqn:E; simpl; rewrite ?E; simpl; repeat split.
Qed.

(** C10. Whenever [get_next_unprocessed_record] returns a record, its
    ["recording"] field strips to the empty string. *)
Theorem locate_recording_blank (values : list (list string)) (k : Z) (r : record) :
  locate values k = Ok (Some r) -> py_strip (recording r) = "".
Proof.
  intros Hl. unfold locate in Hl.
  destruct (Locator.scan_found _ _ _ _ Hl) as [j [rv [-> [_ Hu]]]].
  simpl. unfold field_or_empty.
  destruct (5 <? length rv)%nat eqn:Hlen; [|reflexivity].
  apply Nat.ltb_lt in Hlen. unfold unprocessed in Hu.
  replace (length rv <? 6)%nat with false in Hu by (symmetry; apply Nat.ltb_ge; lia).
  now apply Locator.py_str_empty_eq.
Qed.

Lemma locate_recording_blank_witness :
  locate [hdr6; ["a"; "b"; "c"; "d"; "e"; " "]] 1 =
    Ok (Some (payload 2 ["a"; "b"; "c"; "d"; "e"; " "])) /\
  py_strip (recording (payload 2 ["a"; "b"; "c"; "d"; "e"; " "])) = "".
Proof.
  assert (H : locate [hdr6; ["a"; "b"; "c"; "d"; "e"; " "]] 1 =
              Ok (Some (payload 2 ["a"; "b"; "c"; "d"; "e"; " "]))) by reflexivity.
  split; [exact H|].
  exact (locate_recording_blank _ _ _ H).
Defined.

(* ================================================================== *)
(** * Properties of the Chunk Splitter and the Transcription Engine *)

Module Engine.

Lemma str_app_cons (c : ascii) (s1 s2 : string) : String c s1 ++ s2 = String c (s1 ++ s2).
Proof. reflexivity. Qed.

Lemma str_app_nil_l (s : string) : "" ++ s = s.
Proof. reflexivity. Qed.

Lemma str_app_assoc (s1 s2 s3 : string) : (s1 ++ s2) ++ s3 = s1 ++ (s2 ++ s3).
Proof. induction s1 as [|c s1 IH]; rewrite ?str_app_cons; simpl; [reflexivity|rewrite ?str_app_cons; f_equal; exact IH]. Qed.

Lemma str_app_nil_r (s : string) : s ++ "" = s.
Proof. induction s as [|c s IH]; rewrite ?str_app_cons; simpl; [reflexivity|rewrite ?str_app_cons; f_equal; exact IH]. Qed.

Lemma str_length_app (s1 s2 : string) :
  String.length (s1 ++ s2) = (String.length s1 + String.length s2)%nat.
Proof. induction s1 as [|c s1 IH]; rewrite ?str_app_cons; simpl; [reflexivity|rewrite ?str_app_cons; f_equal; exact IH]. Qed.

Lemma list_ascii_of_string_app (s1 s2 : string) :
  list_ascii_of_string (s1 ++ s2) = (list_ascii_of_string s1 ++ list_ascii_of_string s2)%list.
Proof. induction s1 as [|c s1 IH]; rewrite ?str_app_cons; simpl; [reflexivity|rewrite ?str_app_cons; f_equal; exact IH]. Qed.

Lemma str_app_inj_r (s1 s2 t : string) : s1 ++ t = s2 ++ t -> s1 = s2.
Proof.
  intros H. apply (f_equal list_ascii_of_string) in H.
  rewrite !list_ascii_of_string_app in H. apply app_inv_tail in H.
  rewrite <- (string_of_list_ascii_of_string s1), <- (string_of_list_ascii_of_string s2).
  now rewrite H.
Qed.

(** A chunk path is never the path of the file being split. *)
Lemma chunk_name_neq (file_path : string) (n : Z) : chunk_name file_path n <> file_path.
Proof.
  intros H. apply (f_equal String.length) in H.
  unfold chunk_name in H. rewrite str_length_app in H. simpl in H. lia.
Qed.

Lemma chunk_name_inj (file_path : string) (n1 n2 : Z) :
  chunk_name file_path n1 = chunk_name file_path n2 -> n1 = n2.
Proof.
  unfold chunk_name. intros H.
  apply (inj (String.app file_path)) in H.
  apply (inj (String.app "_chunk")) in H.
  apply str_app_inj_r in H.
  now apply (inj pretty) in H.
Qed.

(** [range(0, stop, step)] with a non-zero step is [0, step, 2 * step, ...]. *)
Lemma py_range_multiples (stop step : Z) (is : list Z) :
  step <> 0 -> py_range 0 stop step = Ok is ->
  exists n, is = map (fun k => 0 + Z.of_nat k * step) (seq 0 n).
Proof.
  intros Hs Hr. unfold py_range in Hr.
  replace (step =? 0) with false in Hr by (symmetry; apply Z.eqb_neq; exact Hs).
  destruct (0 <? step); injection Hr as <-; eexists; reflexivity.
Qed.

Lemma plan_paths (file_path : string) (a : audio) (c : Z) (n : nat) :
  c <> 0 ->
  map fst (chunk_plan file_path a c (map (fun k => 0 + Z.of_nat k * c) (seq 0 n))) =
  map (fun k => chunk_name file_path (Z.of_nat k)) (seq 0 n).
Proof.
  intros Hc. unfold chunk_plan. rewrite !map_map. apply map_ext.
  intros k. simpl. f_equal. rewrite Z.add_0_l, Z.div_mul by exact Hc. reflexivity.
Qed.

(** The planned chunk paths are pairwise distinct. *)
Lemma plan_nodup (file_path : string) (a : audio) (stop c : Z) (is : list Z) :
  c <> 0 -> py_range 0 stop c = Ok is ->
  List.NoDup (map fst (chunk_plan file_path a c is)).
Proof.
  intros Hc Hr. destruct (py_range_multiples stop c is Hc Hr) as [n ->].
  rewrite plan_paths by exact Hc.
  apply NoDup_map_NoDup_ForallPairs; [|apply seq_NoDup].
  intros x y _ _ H. apply chunk_name_inj in H. lia.
Qed.

Lemma plan_not_source (file_path : string) (a : audio) (c : Z) (is : list Z) :
  Forall (fun p => p <> file_path) (map fst (chunk_plan file_path a c is)).
Proof.
  unfold chunk_plan. rewrite map_map. apply List.Forall_forall.
  intros p Hp. apply in_map_iff in Hp as [i [<- _]]. apply chunk_name_neq.
Qed.

Lemma exports_lookup_other (mp3_export : audio -> file) (plan : list (string * audio)) :
  forall m p, ~ In p (map fst plan) -> exports mp3_export plan m !! p = m !! p.
Proof.
  induction plan as [|[q b] plan IH]; intros m p Hp; [reflexivity|].
  simpl in *. rewrite IH by tauto. apply lookup_insert_ne.
  intros Heq. apply Hp. now left.
Qed.

Lemma exports_lookup_in (mp3_export : audio -> file) (plan : list (string * audio)) :
  forall m p b, List.NoDup (map fst plan) -> In (p, b) plan ->
  exports mp3_export plan m !! p = Some (mp3_export b).
Proof.
  induction plan as [|[q b'] plan IH]; intros m p b Hnd Hin; [destruct Hin|].
  simpl in *. inversion Hnd as [|? ? Hq Hnd']; subst.
  destruct Hin as [Heq|Hin].
  - injection Heq as -> ->. rewrite exports_lookup_other by exact Hq.
    apply lookup_insert_eq.
  - now apply IH.
Qed.

Lemma removes_lookup_in (ps : list string) :
  forall m p, In p ps -> removes ps m !! p = None.
Proof.
  induction ps as [|q ps IH]; intros m p Hin; [destruct Hin|].
  simpl. destruct (in_dec string_dec p ps) as [Hps|Hps]; [now apply IH|].
  destruct Hin as [->|Hin]; [|contradiction].
  unfold removes in *. simpl.
  transitivity (delete p m !! p); [|apply lookup_delete_eq].
  clear IH. generalize (delete p m). induction ps as [|r ps IH']; intros m'; [reflexivity|].
  simpl. rewrite IH' by (simpl in Hps; tauto).
  apply lookup_delete_ne. simpl in Hps. tauto.
Qed.

Lemma removes_lookup_other (ps : list string) :
  forall m p, ~ In p ps -> removes ps m !! p = m !! p.
Proof.
  induction ps as [|q ps IH]; intros m p Hp; [reflexivity|].
  unfold removes in *. simpl in *. rewrite IH by tauto.
  apply lookup_delete_ne. tauto.
Qed.

(** With a positive chunk duration, the planned chunks cover the recording:
    each lasts at most one chunk duration and their durations add up to the
    recording's duration. *)
Lemma telescope (c L : Z) (n : nat) :
  forall m : nat,
  fold_right Z.add 0
    (map (fun k => Z.min (Z.of_nat k * c + c) L - Z.min (Z.of_nat k * c) L) (seq m n)) =
  Z.min (Z.of_nat (m + n) * c) L - Z.min (Z.of_nat m * c) L.
Proof.
  induction n as [|n IH]; intros m; simpl.
  - rewrite Nat.add_0_r. lia.
  - rewrite IH. replace (m + S n)%nat with (S m + n)%nat by lia.
    rewrite Nat2Z.inj_succ. lia.
Qed.

Lemma chunk_plan_covers (file_path : string) (a : audio) (c : Z) (is : list Z) :
  0 < c -> 0 <= audio_len a -> py_range 0 (audio_len a) c = Ok is ->
  Forall (fun pa => 0 <= audio_len (snd pa) <= c) (chunk_plan file_path a c is) /\
  fold_right Z.add 0 (map (fun pa => audio_len (snd pa)) (chunk_plan file_path a c is)) =
    audio_len a.
Proof.
  intros Hc HL Hr. unfold py_range in Hr.
  replace (c =? 0) with false in Hr by (symmetry; apply Z.eqb_neq; lia).
  replace (0 <? c) with true in Hr by (symmetry; apply Z.ltb_lt; lia).
  injection Hr as <-.
  set (L := audio_len a) in *.
  set (n := Z.to_nat ((L - 0 + c - 1) / c)).
  unfold chunk_plan. rewrite !map_map. split.
  - apply List.Forall_forall. intros pa Hin.
    apply in_map_iff in Hin as [k [<- _]]. unfold audio_len, slice. simpl.
    fold L. lia.
  - transitivity (fold_right Z.add 0
      (map (fun k => Z.min (Z.of_nat k * c + c) L - Z.min (Z.of_nat k * c) L) (seq 0 n))).
    + f_equal. apply map_ext. intros k. unfold audio_len at 1, slice. simpl.
      fold L. lia.
    + rewrite telescope. simpl.
      assert (Hq : L <= ((L - 0 + c - 1) / c) * c).
      { pose proof (Z.div_mod (L - 0 + c - 1) c ltac:(lia)).
        pose proof (Z.mod_pos_bound (L - 0 + c - 1) c Hc). nia. }
      assert (Hq0 : 0 <= (L - 0 + c - 1) / c) by (apply Z.div_pos; lia).
      unfold n. rewrite Z2Nat.id by exact Hq0. lia.
Qed.

Section Runs.

Variable mp3_export : audio -> file.
Variable whisper : file -> option string.

Lemma split_loop_run (file_path : string) (a : audio) (c : Z) (is : list Z) :
  forall chunks w,
  split_loop mp3_export file_path a c is chunks w =
  (Ok (chunks ++ map fst (chunk_plan file_path a c is))%list,
   mk_world (sheet w) (exports mp3_export (chunk_plan file_path a c is) (fs w)) (log w)).
Proof.
  induction is as [|i is IH]; intros chunks w.
  - simpl. rewrite app_nil_r. now destruct w.
  - simpl. unfold bind at 1, export. rewrite IH. simpl.
    now rewrite <- app_assoc.
Qed.

(** [split_audio] when the chunk size and the range are computed: it
    exports every planned chunk and returns their paths in order. *)
Lemma split_audio_run (file_path : string) (w : world) (f : file) (c : Z) (is : list Z) :
  fs w !! file_path = Some f ->
  chunk_size_ms 25 (audio_of f) = Ok c ->
  py_range 0 (audio_len (audio_of f)) c = Ok is ->
  split_audio mp3_export file_path 25 w =
  (Ok (map fst (chunk_plan file_path (audio_of f) c is)),
   mk_world (sheet w) (exports mp3_export (chunk_plan file_path (audio_of f) c is) (fs w))
            (log w ++ [ev_split file_path])%list).
Proof.
  intros Hf Hc Hr. unfold split_audio, bind, log_event, read_file. simpl.
  rewrite Hf. rewrite Hc. simpl. rewrite Hr. simpl.
  rewrite split_loop_run. reflexivity.
Qed.

(** [split_audio] when the chunk size or the range raises: no file is
    exported. *)
Lemma split_audio_raise (file_path : string) (w : world) (f : file) (e : py_exn) :
  fs w !! file_path = Some f ->
  match chunk_size_ms 25 (audio_of f) with
  | Ok c => py_range 0 (audio_len (audio_of f)) c
  | Raise e => Raise e
  end = Raise e ->
  split_audio mp3_export file_path 25 w =
  (Raise e, mk_world (sheet w) (fs w) (log w ++ [ev_split file_path])%list).
Proof.
  intros Hf He. unfold split_audio, bind, log_event, read_file. simpl.
  rewrite Hf.
  destruct (chunk_size_ms 25 (audio_of f)) as [c|e'] eqn:Hc; simpl.
  - rewrite He. reflexivity.
  - injection He as ->. reflexivity.
Qed.

Lemma chunk_files_delete (m : gmap string file) (p : string) (ps ts : list string) :
  ~ In p ps ->
  Forall2 (fun q t => exists f, m !! q = Some f /\ whisper f = Some t) ps ts ->
  Forall2 (fun q t => exists f, delete p m !! q = Some f /\ whisper f = Some t) ps ts.
Proof.
  intros Hp Hall. induction Hall as [|q t ps ts [f [Hf Ht]] _ IH]; constructor.
  - exists f. split; [|exact Ht]. rewrite lookup_delete_ne; [exact Hf|].
    intros ->. apply Hp. now left.
  - apply IH. intros Hin. apply Hp. now right.
Qed.

(** The chunk loop of [transcribe_audio] when every chunk file exists and
    every service call on them succeeds. *)
Lemma transcribe_chunks_run (ps : list string) :
  forall ts acc w,
  List.NoDup ps ->
  Forall2 (fun p t => exists f, fs w !! p = Some f /\ whisper f = Some t) ps ts ->
  transcribe_chunks whisper ps acc w =
  (Ok (acc ++ join_lines ts),
   mk_world (sheet w) (removes ps (fs w)) (log w ++ map ev_transcribe ps)%list).
Proof.
  induction ps as [|p ps IH]; intros ts acc w Hnd Hall.
  - inversion Hall; subst. simpl. rewrite str_app_nil_r, app_nil_r.
    now destruct w.
  - inversion Hall as [|? t ? ts' [f [Hf Ht]] Hrest]; subst.
    inversion Hnd as [|? ? Hp Hnd']; subst.
    simpl. unfold bind at 1, transcriptions_create, bind at 1, read_file.
    rewrite Hf. unfold bind at 1, log_event. simpl. rewrite Ht.
    unfold bind at 1, ret, os_remove. simpl. rewrite Hf.
    rewrite (IH ts'); [|exact Hnd'|].
    + simpl. rewrite !str_app_assoc, <- app_assoc. reflexivity.
    + simpl. now apply chunk_files_delete.
Qed.

Lemma plan_files (plan : list (string * audio)) (m : gmap string file) :
  List.NoDup (map fst plan) ->
  forall sub ts, (forall pa, In pa sub -> In pa plan) ->
  Forall2 (fun pa t => whisper (mp3_export (snd pa)) = Some t) sub ts ->
  Forall2 (fun p t => exists f, exports mp3_export plan m !! p = Some f /\ whisper f = Some t)
          (map fst sub) ts.
Proof.
  intros Hnd sub. induction sub as [|[p b] sub IH]; intros ts Hsub Hall;
    inversion Hall as [|? t ? ts' Ht Hrest]; subst.
  - constructor.
  - simpl. constructor.
    + exists (mp3_export b). split; [|exact Ht].
      apply exports_lookup_in; [exact Hnd|]. apply Hsub. now left.
    + apply IH; [|exact Hrest]. intros pa Hpa. apply Hsub. now right.
Qed.

Lemma all_some_texts {X} (g : X -> option string) (l : list X) :
  Forall (fun x => is_Some (g x)) l -> exists ts, Forall2 (fun x t => g x = Some t) l ts.
Proof.
  induction 1 as [|x l [t Ht] _ [ts IH]]; [exists []; constructor|].
  exists (t :: ts). now constructor.
Qed.

(** [transcribe_audio] over the limit, when splitting succeeds and every
    chunk is transcribed. *)
Lemma transcribe_over_run (file_path : string) (w : world) (f : file) (c : Z)
    (is : list Z) (ts : list string) :
  fs w !! file_path = Some f ->
  over_limit (size f) = true ->
  chunk_size_ms 25 (audio_of f) = Ok c ->
  py_range 0 (audio_len (audio_of f)) c = Ok is ->
  Forall2 (fun pa t => whisper (mp3_export (snd pa)) = Some t)
          (chunk_plan file_path (audio_of f) c is) ts ->
  transcribe_audio mp3_export whisper file_path w =
  (Ok (py_strip (join_lines ts)),
   mk_world (sheet w)
     (removes (map fst (chunk_plan file_path (audio_of f) c is))
        (exports mp3_export (chunk_plan file_path (audio_of f) c is) (fs w)))
     ((log w ++ [ev_split file_path]) ++
        map ev_transcribe (map fst (chunk_plan file_path (audio_of f) c is)))%list).
Proof.
  intros Hf Hover Hc Hr Hts.
  assert (Hc0 : c <> 0).
  { intros ->. unfold py_range in Hr. discriminate. }
  assert (Hnd := plan_nodup file_path (audio_of f) _ c is Hc0 Hr).
  unfold transcribe_audio, bind at 1, getsize, bind at 1, read_file.
  rewrite Hf. simpl. rewrite Hover.
  unfold bind at 1. rewrite (split_audio_run file_path w f c is Hf Hc Hr).
  unfold bind at 1.
  rewrite (transcribe_chunks_run _ ts); [reflexivity|exact Hnd|].
  simpl. apply plan_files; auto.
Qed.

(** [transcribe_audio] on a missing file: [os.path.getsize] raises. *)
Lemma transcribe_missing (file_path : string) (w : world) :
  fs w !! file_path = None ->
  transcribe_audio mp3_export whisper file_path w = (Raise FileNotFoundError, w).
Proof.
  intros Hf. unfold transcribe_audio, bind at 1, getsize, bind at 1, read_file.
  rewrite Hf. reflexivity.
Qed.

(** [transcribe_audio] at or under the limit. *)
Lemma transcribe_under_run (file_path : string) (w : world) (f : file) :
  fs w !! file_path = Some f ->
  over_limit (size f) = false ->
  transcribe_audio mp3_export whisper file_path w =
  (match whisper f with Some t => Ok t | None => Raise ServiceError end,
   mk_world (sheet w) (fs w) (log w ++ [ev_transcribe file_path])%list).
Proof.
  intros Hf Hover.
  unfold transcribe_audio, bind at 1, getsize, bind at 1, read_file.
  rewrite Hf. simpl. rewrite Hover.
  unfold transcriptions_create, bind, read_file. rewrite Hf. simpl.
  destruct (whisper f); reflexivity.
Qed.

(** [transcribe_audio] over the limit when [split_audio] raises. *)
Lemma transcribe_split_raise (file_path : string) (w : world) (f : file) (e : py_exn) :
  fs w !! file_path = Some f ->
  over_limit (size f) = true ->
  match chunk_size_ms 25 (audio_of f) with
  | Ok c => py_range 0 (audio_len (audio_of f)) c
  | Raise e => Raise e
  end = Raise e ->
  transcribe_audio mp3_export whisper file_path w =
  (Raise e, mk_world (sheet w) (fs w) (log w ++ [ev_split file_path])%list).
Proof.
  intros Hf Hover He.
  unfold transcribe_audio, bind at 1, getsize, bind at 1, read_file.
  rewrite Hf. simpl. rewrite Hover.
  unfold bind at 1. rewrite (split_audio_raise file_path w f e Hf He). reflexivity.
Qed.

(** [transcribe_audio] over the limit when [split_audio] returns: the rest
    of the run is the chunk loop on the planned paths. *)
Lemma transcribe_over_split (file_path : string) (w : world) (f : file) (c : Z)
    (is : list Z) :
  fs w !! file_path = Some f ->
  over_limit (size f) = true ->
  chunk_size_ms 25 (audio_of f) = Ok c ->
  py_range 0 (audio_len (audio_of f)) c = Ok is ->
  snd (transcribe_audio mp3_export whisper file_path w) =
  snd (transcribe_chunks whisper (map fst (chunk_plan file_path (audio_of f) c is)) ""
         (mk_world (sheet w)
            (exports mp3_export (chunk_plan file_path (audio_of f) c is) (fs w))
            (log w ++ [ev_split file_path])%list)).
Proof.
  intros Hf Hover Hc Hr.
  unfold transcribe_audio, bind at 1, getsize, bind at 1, read_file.
  rewrite Hf. simpl. rewrite Hover.
  unfold bind at 1. rewrite (split_audio_run file_path w f c is Hf Hc Hr).
  unfold bind.
  destruct (transcribe_chunks whisper _ "" _) as [[t|e] w']; reflexivity.
Qed.

(** The chunk loop never touches a path outside the chunk list. *)
Lemma transcribe_chunks_keeps (file_path : string) (ps : list string) :
  Forall (fun p => p <> file_path) ps ->
  forall acc w,
  fs (snd (transcribe_chunks whisper ps acc w)) !! file_path = fs w !! file_path.
Proof.
  induction 1 as [|p ps Hp _ IH]; intros acc w; [reflexivity|].
  simpl. unfold bind at 1, transcriptions_create, bind at 1, read_file.
  destruct (fs w !! p) as [g|] eqn:Hg; [|reflexivity].
  unfold bind at 1, log_event. simpl.
  destruct (whisper g) as [t|]; [|reflexivity].
  unfold bind at 1, ret, os_remove. simpl. rewrite Hg.
  rewrite IH. simpl. apply lookup_delete_ne. congruence.
Qed.

End Runs.

End Engine.

(* ================================================================== *)
(** * Claims about the Chunk Splitter and the Transcription Engine *)

(** C3 (code bug). A non-empty recording whose frame volume exceeds the
    25 MiB ceiling per second (192 kHz, 64 channels of 32-bit samples) gets
    a chunk duration of 0 ms; [split_audio] then enters
    [range(0, 1000, 0)], which raises [ValueError]: no chunk is produced and
    there is no guard against the zero step. *)
Theorem split_audio_zero_step_raises :
  audio_len wide_audio = 1000 /\
  chunk_size_ms 25 wide_audio = Ok 0 /\
  split_audio mock_export "wide.wav" 25 wide_world =
    (Raise ValueError, mk_world [] (fs wide_world) [ev_split "wide.wav"]).
Proof. split; [reflexivity|]. split; vm_compute; reflexivity. Qed.

(** C4 (amended). For every file over the 25 MiB ceiling whose split
    succeeds (the chunk size and the range are computed), if the service
    answers [ts] for the chunks in order, [transcribe_audio] calls the
    Chunk Splitter, then the service once per chunk in order, and returns
    the texts each followed by a newline, with leading and trailing
    whitespace stripped ([str.strip]). *)
Theorem transcribe_over_limit_joined (mp3_export : audio -> file)
    (whisper : file -> option string) (file_path : string) (w : world) (f : file)
    (c : Z) (is : list Z) (ts : list string) :
  fs w !! file_path = Some f ->
  over_limit (size f) = true ->
  chunk_size_ms 25 (audio_of f) = Ok c ->
  py_range 0 (audio_len (audio_of f)) c = Ok is ->
  Forall2 (fun pa t => whisper (mp3_export (snd pa)) = Some t)
          (chunk_plan file_path (audio_of f) c is) ts ->
  fst (transcribe_audio mp3_export whisper file_path w) = Ok (py_strip (join_lines ts)) /\
  log (snd (transcribe_audio mp3_export whisper file_path w)) =
    (log w ++ ev_split file_path ::
       map ev_transcribe (map fst (chunk_plan file_path (audio_of f) c is)))%list.
Proof.
  intros Hf Hover Hc Hr Hts.
  rewrite (Engine.transcribe_over_run mp3_export whisper file_path w f c is ts
             Hf Hover Hc Hr Hts).
  simpl. split; [reflexivity|]. now rewrite <- app_assoc.
Qed.

Lemma transcribe_over_limit_joined_witness :
  fst (transcribe_audio mock_export (mock_whisper "first") "memo.webm" memo_world) =
    Ok ("first" ++ newline ++ "second" ++ newline ++ "third").
Proof.
  destruct (transcribe_over_limit_joined mock_export (mock_whisper "first")
              "memo.webm" memo_world (mk_file (60 * 1024 * 1024) memo_audio)
              148000 [0; 148000; 296000] ["first"; "second"; "third"])
    as [H _].
  - vm_compute. reflexivity.
  - vm_compute. reflexivity.
  - vm_compute. reflexivity.
  - vm_compute. reflexivity.
  - repeat constructor.
  - rewrite H. vm_compute. reflexivity.
Defined.

(** C4 counterexample: when the first chunk's text starts with a space,
    the result is stripped at the front too, so it differs from the
    accumulator stripped only at the end. *)
Lemma transcribe_strips_leading_space :
  fst (transcribe_audio mock_export (mock_whisper " first") "memo.webm" memo_world) =
    Ok ("first" ++ newline ++ "second" ++ newline ++ "third") /\
  py_rstrip (join_lines [" first"; "second"; "third"]) =
    " first" ++ newline ++ "second" ++ newline ++ "third" /\
  " first" ++ newline ++ "second" ++ newline ++ "third" <>
    "first" ++ newline ++ "second" ++ newline ++ "third".
Proof.
  split; [vm_compute; reflexivity|].
  split; [vm_compute; reflexivity|].
  discriminate.
Qed.

(** C5. For every file at or under the 25 MiB ceiling, [transcribe_audio]
    makes exactly one service call, on the file itself, never enters the
    Chunk Splitter, leaves the file system unchanged and returns the
    service's text as it is (or lets the service's error through). *)
Theorem transcribe_under_limit_single_call (mp3_export : audio -> file)
    (whisper : file -> option string) (file_path : string) (w : world) (f : file) :
  fs w !! file_path = Some f ->
  over_limit (size f) = false ->
  transcribe_audio mp3_export whisper file_path w =
  (match whisper f with Some t => Ok t | None => Raise ServiceError end,
   mk_world (sheet w) (fs w) (log w ++ [ev_transcribe file_path])%list).
Proof.
  apply Engine.transcribe_under_run.
Qed.

Lemma transcribe_under_limit_single_call_witness :
  transcribe_audio mock_export (mock_whisper "memo text") "short.webm" short_world =
  (Ok "memo text",
   mk_world [] (fs short_world) [ev_transcribe "short.webm"]).
Proof.
  apply (transcribe_under_limit_single_call mock_export (mock_whisper "memo text")
           "short.webm" short_world (mk_file 4096 (mk_audio "short.webm" 48000 2 0 5000)));
    vm_compute; reflexivity.
Defined.

(** C6 (code bug). For the same positive frame rate, frame width and
    duration as in C3, the per-chunk duration floor(ceiling / (rate * width))
    is 0 s; the slicing loop raises [ValueError], so no partition of the
    recording is produced and [transcribe_audio] fails on the file. *)
Theorem split_audio_zero_chunk_no_partition :
  audio_len wide_audio = 1000 /\
  chunk_size_ms 25 wide_audio = Ok 0 /\
  py_range 0 (audio_len wide_audio) 0 = Raise ValueError /\
  fst (transcribe_audio mock_export (mock_whisper "first") "wide.wav" wide_world) =
    Raise ValueError.
Proof. repeat split; vm_compute; reflexivity. Qed.

(** C8. On every path [transcribe_audio] leaves the source file as it was.
    Over the ceiling, when [split_audio] produces its chunks and every
    per-chunk service call succeeds, every chunk file it exported is gone
    when [transcribe_audio] returns; when [split_audio] raises, no chunk
    file was created and the file system is unchanged. *)
Theorem transcribe_keeps_source_removes_chunks (mp3_export : audio -> file)
    (whisper : file -> option string) (file_path : string) (w : world) :
  fs (snd (transcribe_audio mp3_export whisper file_path w)) !! file_path =
    fs w !! file_path /\
  (forall f c is,
     fs w !! file_path = Some f ->
     over_limit (size f) = true ->
     chunk_size_ms 25 (audio_of f) = Ok c ->
     py_range 0 (audio_len (audio_of f)) c = Ok is ->
     Forall (fun pa => is_Some (whisper (mp3_export (snd pa))))
            (chunk_plan file_path (audio_of f) c is) ->
     (exists t, fst (transcribe_audio mp3_export whisper file_path w) = Ok t) /\
     Forall (fun pa => fs (snd (transcribe_audio mp3_export whisper file_path w))
                         !! fst pa = None)
            (chunk_plan file_path (audio_of f) c is)) /\
  (forall f e,
     fs w !! file_path = Some f ->
     over_limit (size f) = true ->
     match chunk_size_ms 25 (audio_of f) with
     | Ok c => py_range 0 (audio_len (audio_of f)) c
     | Raise e => Raise e
     end = Raise e ->
     fs (snd (transcribe_audio mp3_export whisper file_path w)) = fs w).
Proof.
  split; [|split].
  - destruct (fs w !! file_path) as [f|] eqn:Hf.
    2:{ rewrite (Engine.transcribe_missing mp3_export whisper file_path w Hf).
        exact Hf. }
    destruct (over_limit (size f)) eqn:Hover.
    2:{ rewrite (Engine.transcribe_under_run mp3_export whisper file_path w f Hf Hover).
        exact Hf. }
    destruct (chunk_size_ms 25 (audio_of f)) as [c|e] eqn:Hc.
    + destruct (py_range 0 (audio_len (audio_of f)) c) as [is|e] eqn:Hr.
      * rewrite (Engine.transcribe_over_split mp3_export whisper file_path w f c is
                   Hf Hover Hc Hr).
        rewrite (Engine.transcribe_chunks_keeps whisper file_path _
                   (Engine.plan_not_source file_path (audio_of f) c is)).
        simpl. rewrite Engine.exports_lookup_other; [exact Hf|].
        intros Hin. pose proof (Engine.plan_not_source file_path (audio_of f) c is) as Hn.
        rewrite List.Forall_forall in Hn. now apply (Hn file_path).
      * rewrite (Engine.transcribe_split_raise mp3_export whisper file_path w f e Hf Hover).
        -- exact Hf.
        -- rewrite Hc. exact Hr.
    + rewrite (Engine.transcribe_split_raise mp3_export whisper file_path w f e Hf Hover)
        by (rewrite Hc; reflexivity).
      exact Hf.
  - intros f c is Hf Hover Hc Hr Hall.
    destruct (Engine.all_some_texts _ _ Hall) as [ts Hts].
    rewrite (Engine.transcribe_over_run mp3_export whisper file_path w f c is ts
               Hf Hover Hc Hr Hts).
    split; [eexists; reflexivity|].
    simpl. apply List.Forall_forall. intros [p b] Hin. simpl.
    apply Engine.removes_lookup_in. apply in_map_iff. now exists (p, b).
  - intros f e Hf Hover He.
    rewrite (Engine.transcribe_split_raise mp3_export whisper file_path w f e Hf Hover He).
    reflexivity.
Qed.

Lemma transcribe_keeps_source_removes_chunks_witness :
  fs (snd (transcribe_audio mock_export (mock_whisper "first") "memo.webm" memo_world))
    !! "memo.webm" = fs memo_world !! "memo.webm" /\
  (exists t, fst (transcribe_audio mock_export (mock_whisper "first") "memo.webm" memo_world)
             = Ok t) /\
  Forall (fun pa => fs (snd (transcribe_audio mock_export (mock_whisper "first")
                               "memo.webm" memo_world)) !! fst pa = None)
         (chunk_plan "memo.webm" memo_audio 148000 [0; 148000; 296000]) /\
  fs (snd (transcribe_audio mock_export (mock_whisper "first") "wide.wav" wide_world)) =
    fs wide_world.
Proof.
  destruct (transcribe_keeps_source_removes_chunks mock_export (mock_whisper "first")
              "memo.webm" memo_world) as [Hsrc [Hok _]].
  destruct (Hok (mk_file (60 * 1024 * 1024) memo_audio) 148000 [0; 148000; 296000])
    as [Ht Hgone];
    [vm_compute; reflexivity|vm_compute; reflexivity|vm_compute; reflexivity
    |vm_compute; reflexivity
    |vm_compute; repeat (apply List.Forall_cons; [eexists; reflexivity|]);
     apply List.Forall_nil|].
  split; [exact Hsrc|]. split; [exact Ht|]. split; [exact Hgone|].
  destruct (transcribe_keeps_source_removes_chunks mock_export (mock_whisper "first")
              "wide.wav" wide_world) as [_ [_ Hraise]].
  apply (Hraise (mk_file (192000 * 256) wide_audio) ValueError);
    vm_compute; reflexivity.
Defined.

(* ================================================================== *)
(** * Properties of the write-back, the endpoints and the background task *)

Module AppFacts.










Lemma field_or_empty_nth (rv : list string) (n : nat) :
  field_or_empty rv n = nth n rv "".
Proof.
  unfold field_or_empty. destruct (n <? length rv)%nat eqn:H; [reflexivity|].
  apply Nat.ltb_ge in H. now rewrite nth_overflow.
Qed.






End AppFacts.

Module Frame.

Section Frame.

Variable mp3_export : audio -> file.
Variable whisper : file -> option string.

Definition keeps_sheet {A} (m : M A) : Prop := forall w, sheet (snd (m w)) = sheet w.

Lemma bind_keeps_sheet {A B} (m : M A) (k : A -> M B) :
  keeps_sheet m -> (forall x, keeps_sheet (k x)) -> keeps_sheet (bind m k).
Proof.
  intros Hm Hk w. unfold bind.
  specialize (Hm w). destruct (m w) as [[x|e] w'] eqn:E; simpl in *.
  - rewrite Hk. exact Hm.
  - exact Hm.
Qed.

Lemma ret_keeps_sheet {A} (x : A) : keeps_sheet (ret x).
Proof. intros w. reflexivity. Qed.

Lemma raise_keeps_sheet {A} (e : py_exn) : keeps_sheet (@raise A e).
Proof. intros w. reflexivity. Qed.

Lemma lift_keeps_sheet {A} (r : result A) : keeps_sheet (lift r).
Proof. destruct r; intros w; reflexivity. Qed.

Lemma log_event_keeps_sheet (e : event) : keeps_sheet (log_event e).
Proof. intros w. reflexivity. Qed.

Lemma read_file_keeps_sheet (p : string) : keeps_sheet (read_file p).
Proof. intros w. unfold read_file. now destruct (fs w !! p). Qed.

Lemma os_remove_keeps_sheet (p : string) : keeps_sheet (os_remove p).
Proof. intros w. unfold os_remove. now destruct (fs w !! p). Qed.

Lemma export_keeps_sheet (p : string) (a : audio) : keeps_sheet (export mp3_export p a).
Proof. intros w. reflexivity. Qed.

Create HintDb keeps.

#[local] Hint Resolve bind_keeps_sheet ret_keeps_sheet raise_keeps_sheet lift_keeps_sheet
  log_event_keeps_sheet read_file_keeps_sheet os_remove_keeps_sheet export_keeps_sheet
  : keeps.

Lemma transcriptions_create_keeps_sheet (p : string) :
  keeps_sheet (transcriptions_create whisper p).
Proof.
  unfold transcriptions_create. apply bind_keeps_sheet; [auto with keeps|intros f].
  apply bind_keeps_sheet; [auto with keeps|intros _].
  destruct (whisper f); auto with keeps.
Qed.

Lemma split_loop_keeps_sheet (fp : string) (a : audio) (c : Z) (is : list Z) :
  forall chunks, keeps_sheet (split_loop mp3_export fp a c is chunks).
Proof.
  induction is as [|i is IH]; intros chunks; simpl; auto with keeps.
Qed.

Lemma transcribe_chunks_keeps_sheet (ps : list string) :
  forall acc, keeps_sheet (transcribe_chunks whisper ps acc).
Proof.
  induction ps as [|p ps IH]; intros acc; simpl; auto with keeps.
  apply bind_keeps_sheet; [apply transcriptions_create_keeps_sheet|intros t].
  apply bind_keeps_sheet; auto with keeps.
Qed.

(** The Transcription Engine never writes the spreadsheet. *)
Lemma transcribe_audio_keeps_sheet (fp : string) :
  keeps_sheet (transcribe_audio mp3_export whisper fp).
Proof.
  unfold transcribe_audio, getsize.
  apply bind_keeps_sheet; [apply bind_keeps_sheet; auto with keeps|intros sz].
  destruct (over_limit sz); [|apply transcriptions_create_keeps_sheet].
  apply bind_keeps_sheet.
  - unfold split_audio. repeat (apply bind_keeps_sheet; auto with keeps; intros ?).
    apply split_loop_keeps_sheet.
  - intros chunks. apply bind_keeps_sheet; [apply transcribe_chunks_keeps_sheet|auto with keeps].
Qed.

(** The Transcription Engine leaves the file it transcribes in place. *)
Lemma transcribe_audio_keeps_file (fp : string) (w : world) :
  fs (snd (transcribe_audio mp3_export whisper fp w)) !! fp = fs w !! fp.
Proof.
  destruct (fs w !! fp) as [f|] eqn:Hf.
  2:{ rewrite (Engine.transcribe_missing mp3_export whisper fp w Hf). exact Hf. }
  destruct (over_limit (size f)) eqn:Hover.
  2:{ rewrite (Engine.transcribe_under_run mp3_export whisper fp w f Hf Hover).
      exact Hf. }
  destruct (chunk_size_ms 25 (audio_of f)) as [c|e] eqn:Hc.
  - destruct (py_range 0 (audio_len (audio_of f)) c) as [is|e] eqn:Hr.
    + rewrite (Engine.transcribe_over_split mp3_export whisper fp w f c is Hf Hover Hc Hr).
      rewrite (Engine.transcribe_chunks_keeps whisper fp _
                 (Engine.plan_not_source fp (audio_of f) c is)).
      simpl. rewrite Engine.exports_lookup_other; [exact Hf|].
      intros Hin. pose proof (Engine.plan_not_source fp (audio_of f) c is) as Hn.
      rewrite List.Forall_forall in Hn. now apply (Hn fp).
    + rewrite (Engine.transcribe_split_raise mp3_export whisper fp w f e Hf Hover).
      * exact Hf.
      * rewrite Hc. exact Hr.
  - rewrite (Engine.transcribe_split_raise mp3_export whisper fp w f e Hf Hover).
    + exact Hf.
    + rewrite Hc. reflexivity.
Qed.

End Frame.

End Frame.

Module AppRuns.

Lemma process_fs (mp3_export : audio -> file) (whisper : file -> option string)
    (rendered : string -> string) (fp : string) (r : Z) (w : world) :
  fs (snd (process_transcription mp3_export whisper rendered fp r w)) =
  fs (snd (transcribe_audio mp3_export whisper fp w)).
Proof.
  unfold process_transcription.
  destruct (transcribe_audio mp3_export whisper fp w) as [[t|e] w1]; [|reflexivity].
  unfold update_acell_F. now destruct (1 <=? r).
Qed.



End AppRuns.

(* ------------------------------------------------------------------ *)
(** ** Extra properties of the code *)









(** For a row number below 1 there is no cell [F{r}] to write: the task
    never changes the table, and after a successful transcription it ends in
    the cell-address failure with the transcription's files and log. *)
Theorem process_transcription_bad_row (mp3_export : audio -> file)
    (whisper : file -> option string) (rendered : string -> string)
    (fp : string) (r : Z) (w : world) :
  r < 1 ->
  sheet (snd (process_transcription mp3_export whisper rendered fp r w)) = sheet w /\
  (forall t w1, transcribe_audio mp3_export whisper fp w = (Ok t, w1) ->
     process_transcription mp3_export whisper rendered fp r w = (TaskBadCell, w1)).
Proof.
  intros Hr.
  pose proof (Frame.transcribe_audio_keeps_sheet mp3_export whisper fp w) as Hk.
  unfold process_transcription, update_acell_F.
  replace (1 <=? r) with false by (symmetry; apply Z.leb_gt; lia).
  split.
  - destruct (transcribe_audio mp3_export whisper fp w) as [[t|e] w1]; exact Hk.
  - intros t w1 Ht. now rewrite Ht.
Qed.

Lemma process_transcription_bad_row_witness :
  sheet (snd (process_transcription mock_export (mock_whisper "hello") (fun s => s)
                "short.webm" 0 (mk_world [hdr6] (fs short_world) []))) = [hdr6].
Proof.
  apply (process_transcription_bad_row mock_export (mock_whisper "hello") (fun s => s)
           "short.webm" 0 (mk_world [hdr6] (fs short_world) [])).
  lia.
Defined.

(** The [/done] request: the response is computed from the table as it was
    before the background task runs (the next unprocessed row after
    [current_row], or the no-more-records message, or the locator's
    exception, in which case no task is scheduled); and the uploaded file is
    still at its temporary path once the task has finished, whatever the
    task's outcome. *)
Theorem done_request_response_and_upload_kept (mp3_export : audio -> file)
    (whisper : file -> option string) (rendered : string -> string)
    (tmp_path : string) (upload : file) (current_row : Z) (w : world) :
  fst (fst (done_request mp3_export whisper rendered tmp_path upload current_row w)) =
    match locate (sheet w) current_row with
    | Ok (Some r) => Ok (NextRecord r)
    | Ok None => Ok NoMoreRecords
    | Raise e => Raise e
    end /\
  (snd (fst (done_request mp3_export whisper rendered tmp_path upload current_row w)) = None <->
   exists e, locate (sheet w) current_row = Raise e) /\
  fs (snd (done_request mp3_export whisper rendered tmp_path upload current_row w)) !! tmp_path =
    Some upload.
Proof.
  unfold done_request, done, write_file, get_next_unprocessed_record.
  unfold bind, get_all_values, lift, ret, raise; simpl.
  set (w0 := mk_world (sheet w) (<[tmp_path:=upload]> (fs w)) (log w)).
  assert (Hup : fs w0 !! tmp_path = Some upload) by (simpl; apply lookup_insert_eq).
  pose proof (AppRuns.process_fs mp3_export whisper rendered tmp_path current_row w0) as Hf.
  assert (Hf' : fs (snd (process_transcription mp3_export whisper rendered tmp_path
                           current_row w0)) !! tmp_path = Some upload)
    by (rewrite Hf, Frame.transcribe_audio_keeps_file; exact Hup).
  clear Hf.
  destruct (locate (sheet w) current_row) as [[r|]|e]; simpl.
  - destruct (process_transcription mp3_export whisper rendered tmp_path current_row w0)
      as [out w2]; simpl in *.
    split; [reflexivity|split; [|exact Hf']].
    split; [discriminate|intros [e He]; discriminate].
  - destruct (process_transcription mp3_export whisper rendered tmp_path current_row w0)
      as [out w2]; simpl in *.
    split; [reflexivity|split; [|exact Hf']].
    split; [discriminate|intros [e He]; discriminate].
  - split; [reflexivity|split; [split; [intros _; now exists e|reflexivity]|exact Hup]].
Qed.

Module PipeFacts.

Definition max_bytes : Z := 25 * 1024 * 1024.

Lemma chunk_size_pos (a : audio) :
  0 < frame_rate a * frame_width a ->
  chunk_size_ms 25 a = Ok (Z.quot max_bytes (frame_rate a * frame_width a) * 1000).
Proof.
  intros Hv. unfold chunk_size_ms.
  replace (frame_rate a * frame_width a =? 0) with false by (symmetry; apply Z.eqb_neq; lia).
  reflexivity.
Qed.

Lemma chunk_zero_iff (v : Z) :
  0 < v -> (Z.quot max_bytes v * 1000 = 0 <-> max_bytes < v).
Proof.
  intros Hv. unfold max_bytes. rewrite Z.quot_div_nonneg by lia. split.
  - intros H. destruct (Z.lt_ge_cases (25 * 1024 * 1024) v) as [Hlt|Hge]; [exact Hlt|].
    pose proof (Z.div_str_pos (25 * 1024 * 1024) v ltac:(lia)). lia.
  - intros H. rewrite Z.div_small by lia. reflexivity.
Qed.

Lemma chunk_nonneg (v : Z) : 0 < v -> 0 <= Z.quot max_bytes v * 1000.
Proof.
  intros Hv. unfold max_bytes. rewrite Z.quot_div_nonneg by lia.
  pose proof (Z.div_pos (25 * 1024 * 1024) v ltac:(lia) Hv). lia.
Qed.

Lemma py_range_zero (start stop : Z) : py_range start stop 0 = Raise ValueError.
Proof. reflexivity. Qed.

Lemma py_range_pos (L c : Z) :
  0 < c ->
  py_range 0 L c =
    Ok (map (fun k => 0 + Z.of_nat k * c) (seq 0 (Z.to_nat ((L + c - 1) / c)))).
Proof.
  intros Hc. unfold py_range.
  replace (c =? 0) with false by (symmetry; apply Z.eqb_neq; lia).
  replace (0 <? c) with true by (symmetry; apply Z.ltb_lt; lia).
  now rewrite Z.sub_0_r.
Qed.

Lemma nth_error_map_seq {A} (f : nat -> A) (n : nat) :
  forall s k, nth_error (map f (seq s n)) k =
              if (k <? n)%nat then Some (f (s + k)%nat) else None.
Proof.
  induction n as [|n IH]; intros s k; [destruct k; reflexivity|].
  destruct k as [|k]; simpl; [now rewrite Nat.add_0_r|].
  rewrite IH. now replace (S s + k)%nat with (s + S k)%nat by lia.
Qed.

(** The slice starts of [split_audio] as the plan of the chunks. *)
Lemma chunk_plan_seq (file_path : string) (a : audio) (c : Z) (n : nat) :
  c <> 0 ->
  chunk_plan file_path a c (map (fun k => 0 + Z.of_nat k * c) (seq 0 n)) =
  map (fun k => (chunk_name file_path (Z.of_nat k),
                 slice a (Z.of_nat k * c) (Z.of_nat k * c + c))) (seq 0 n).
Proof.
  intros Hc. unfold chunk_plan. rewrite map_map. apply map_ext. intros k.
  rewrite Z.add_0_l, Z.div_mul by exact Hc. reflexivity.
Qed.

(** The number of chunks is the ceiling of [L / c]. *)
Lemma ceil_bounds (L c : Z) :
  0 < c -> 0 <= L ->
  0 <= (L + c - 1) / c /\ c * ((L + c - 1) / c) <= L + c - 1 /\
  L <= c * ((L + c - 1) / c).
Proof.
  intros Hc HL. split; [apply Z.div_pos; lia|]. split; [apply Z.mul_div_le; lia|].
  pose proof (Z.div_mod (L + c - 1) c ltac:(lia)).
  pose proof (Z.mod_pos_bound (L + c - 1) c Hc). lia.
Qed.

Lemma slice_len (a : audio) (s e : Z) :
  audio_len (slice a s e) = Z.min e (audio_len a) - Z.min s (audio_len a).
Proof. unfold audio_len at 1, slice. simpl. lia. Qed.

Lemma slice_from (a : audio) (s e : Z) :
  from_ms (slice a s e) = from_ms a + Z.min s (audio_len a).
Proof. reflexivity. Qed.

Lemma slice_to (a : audio) (s e : Z) :
  to_ms (slice a s e) = from_ms a + Z.min e (audio_len a).
Proof. reflexivity. Qed.

Lemma nodup_app_disjoint {A} (l1 l2 : list A) (x : A) :
  List.NoDup (l1 ++ l2) -> In x l1 -> ~ In x l2.
Proof.
  induction l1 as [|y l1 IH]; intros Hnd Hin; [destruct Hin|].
  simpl in Hnd. inversion Hnd as [|? ? Hy Hnd']; subst.
  destruct Hin as [->|Hin]; [|now apply IH].
  intros H2. apply Hy. apply in_or_app. now right.
Qed.

Section Chunks.

Variable whisper : file -> option string.

(** The chunk loop, when the service fails on the chunk [p] after
    transcribing the chunks [pre]: the chunks before [p] were removed, [p]
    and the rest were not. *)
Lemma transcribe_chunks_fail (pre : list string) :
  forall p post ts acc w g,
  List.NoDup (pre ++ p :: post) ->
  Forall2 (fun q t => exists f, fs w !! q = Some f /\ whisper f = Some t) pre ts ->
  fs w !! p = Some g -> whisper g = None ->
  transcribe_chunks whisper (pre ++ p :: post) acc w =
  (Raise ServiceError,
   mk_world (sheet w) (removes pre (fs w))
            (log w ++ map ev_transcribe pre ++ [ev_transcribe p])%list).
Proof.
  induction pre as [|q pre IH]; intros p post ts acc w g Hnd Hall Hg Hw.
  - simpl. unfold bind at 1, transcriptions_create, bind at 1, read_file.
    rewrite Hg. unfold bind at 1, log_event. simpl. rewrite Hw. reflexivity.
  - inversion Hall as [|? t ? ts' [f [Hf Ht]] Hrest]; subst.
    simpl in Hnd. inversion Hnd as [|? ? Hq Hnd']; subst.
    simpl. unfold bind at 1, transcriptions_create, bind at 1, read_file.
    rewrite Hf. unfold bind at 1, log_event. simpl. rewrite Ht.
    unfold bind at 1, ret, os_remove. simpl. rewrite Hf.
    rewrite (IH p post ts' _ _ g Hnd').
    + simpl. now rewrite <- app_assoc.
    + apply Engine.chunk_files_delete; [|exact Hrest].
      intros Hin. apply Hq. apply in_or_app. now left.
    + simpl. rewrite lookup_delete_ne; [exact Hg|].
      intros ->. apply Hq. apply in_or_app. right. now left.
    + exact Hw.
Qed.


End Chunks.

End PipeFacts.

(** [split_audio] on an existing recording raises exactly in two cases: a
    zero frame volume (rate times width) makes the size division raise
    [ZeroDivisionError], and a frame volume above the 25 MiB ceiling gives a
    zero chunk duration, on which [range] raises [ValueError]. When it
    raises, no chunk file has been written. *)
Theorem split_audio_error_cases (mp3_export : audio -> file) (fp : string) (w : world)
    (f : file) (e : py_exn) :
  fs w !! fp = Some f ->
  0 <= frame_rate (audio_of f) * frame_width (audio_of f) ->
  (fst (split_audio mp3_export fp 25 w) = Raise e <->
     (e = ZeroDivisionError /\ frame_rate (audio_of f) * frame_width (audio_of f) = 0) \/
     (e = ValueError /\ 25 * 1024 * 1024 < frame_rate (audio_of f) * frame_width (audio_of f))) /\
  (fst (split_audio mp3_export fp 25 w) = Raise e ->
     snd (split_audio mp3_export fp 25 w) =
       mk_world (sheet w) (fs w) (log w ++ [ev_split fp])%list).
Proof.
  intros Hf Hv.
  set (v := frame_rate (audio_of f) * frame_width (audio_of f)) in *.
  destruct (Z.eq_dec v 0) as [H0|H0].
  - assert (Hc : chunk_size_ms 25 (audio_of f) = Raise ZeroDivisionError).
    { unfold chunk_size_ms. fold v. now rewrite H0. }
    rewrite (Engine.split_audio_raise mp3_export fp w f ZeroDivisionError Hf)
      by (rewrite Hc; reflexivity).
    simpl. split; [|reflexivity].
    split; [intros H; injection H as <-; left; now split|].
    intros [[-> _]|[_ H]]; [reflexivity|lia].
  - pose proof (PipeFacts.chunk_size_pos (audio_of f) ltac:(fold v; lia)) as Hc.
    fold v in Hc.
    set (c := Z.quot PipeFacts.max_bytes v * 1000) in Hc.
    pose proof (PipeFacts.chunk_zero_iff v ltac:(lia)) as Hz. fold c in Hz.
    pose proof (PipeFacts.chunk_nonneg v ltac:(lia)) as Hcn. fold c in Hcn.
    unfold PipeFacts.max_bytes in Hz.
    destruct (Z_lt_le_dec (25 * 1024 * 1024) v) as [Hbig|Hsmall].
    + rewrite (Engine.split_audio_raise mp3_export fp w f ValueError Hf)
        by (rewrite Hc; replace c with 0 by (symmetry; now apply Hz); reflexivity).
      simpl. split; [|reflexivity].
      split; [intros H; injection H as <-; right; now split|].
      intros [[_ H]|[-> _]]; [lia|reflexivity].
    + assert (Hcp : 0 < c).
      { destruct (Z.eq_dec c 0) as [Hc0|Hc0]; [apply Hz in Hc0; lia|lia]. }
      rewrite (Engine.split_audio_run mp3_export fp w f c _ Hf Hc
                 (PipeFacts.py_range_pos _ c Hcp)).
      simpl. split; [|discriminate].
      split; [discriminate|]. intros [[_ H]|[_ H]]; lia.
Qed.

Lemma split_audio_error_cases_witness :
  0 <= frame_rate wide_audio * frame_width wide_audio /\
  fst (split_audio mock_export "wide.wav" 25 wide_world) = Raise ValueError.
Proof.
  split; [vm_compute; discriminate|].
  apply (proj1 (split_audio_error_cases mock_export "wide.wav" wide_world
                  (mk_file (192000 * 256) wide_audio) ValueError
                  ltac:(vm_compute; reflexivity) ltac:(vm_compute; discriminate))).
  right. split; [reflexivity|vm_compute; reflexivity].
Defined.

(** [split_audio] with a positive chunk duration [c] returns the paths
    [file_path + "_chunk0.mp3"], ..., [file_path + "_chunk{n-1}.mp3"] in
    order, where [n] is the ceiling of the duration divided by [c]; the
    [k]-th file holds the export of the slice from [k * c] to [k * c + c]
    ms; every other path and the table are left alone. *)
Theorem split_audio_exports_chunks (mp3_export : audio -> file) (fp : string) (w : world)
    (f : file) (c : Z) :
  fs w !! fp = Some f ->
  chunk_size_ms 25 (audio_of f) = Ok c -> 0 < c ->
  exists w',
    split_audio mp3_export fp 25 w =
      (Ok (map (fun k => chunk_name fp (Z.of_nat k))
               (seq 0 (Z.to_nat ((audio_len (audio_of f) + c - 1) / c)))), w') /\
    sheet w' = sheet w /\ log w' = (log w ++ [ev_split fp])%list /\
    (forall k, (k < Z.to_nat ((audio_len (audio_of f) + c - 1) / c))%nat ->
       fs w' !! chunk_name fp (Z.of_nat k) =
         Some (mp3_export (slice (audio_of f) (Z.of_nat k * c) (Z.of_nat k * c + c)))) /\
    (forall p, ~ In p (map (fun k => chunk_name fp (Z.of_nat k))
                        (seq 0 (Z.to_nat ((audio_len (audio_of f) + c - 1) / c)))) ->
       fs w' !! p = fs w !! p).
Proof.
  intros Hf Hc Hcp.
  set (n := Z.to_nat ((audio_len (audio_of f) + c - 1) / c)).
  pose proof (PipeFacts.py_range_pos (audio_len (audio_of f)) c Hcp) as Hr.
  fold n in Hr.
  pose proof (Engine.plan_nodup fp (audio_of f) _ c _ ltac:(lia) Hr) as Hnd.
  pose proof (Engine.plan_paths fp (audio_of f) c n ltac:(lia)) as Hp.
  rewrite (Engine.split_audio_run mp3_export fp w f c _ Hf Hc Hr).
  eexists. split; [rewrite Hp; reflexivity|].
  split; [reflexivity|]. split; [reflexivity|]. split.
  - intros k Hk. simpl. apply Engine.exports_lookup_in; [exact Hnd|].
    rewrite PipeFacts.chunk_plan_seq by lia.
    apply in_map_iff. exists k. split; [reflexivity|]. apply in_seq. lia.
  - intros p Hnot. simpl. apply Engine.exports_lookup_other. now rewrite Hp.
Qed.

Lemma split_audio_exports_chunks_witness :
  fst (split_audio mock_export "memo.webm" 25 memo_world) =
    Ok ["memo.webm_chunk0.mp3"; "memo.webm_chunk1.mp3"; "memo.webm_chunk2.mp3"].
Proof.
  destruct (split_audio_exports_chunks mock_export "memo.webm" memo_world
              (mk_file (60 * 1024 * 1024) memo_audio) 148000
              ltac:(vm_compute; reflexivity) ltac:(vm_compute; reflexivity)
              ltac:(lia)) as [w' [H _]].
  rewrite H. vm_compute. reflexivity.
Defined.

(** The chunks [split_audio] cuts from a recording with a positive chunk
    duration [c] partition it in order: each chunk is non-empty and lasts
    at most [c] ms, every chunk but the last lasts exactly [c] ms and ends
    where the next one starts, the first starts at the start of the
    recording and the last ends at its end; there is a chunk exactly when
    the recording is not empty. *)
Theorem split_audio_partition (fp : string) (a : audio) (c : Z) (is : list Z) :
  0 < c -> 0 <= audio_len a ->
  py_range 0 (audio_len a) c = Ok is ->
  (forall k p s, nth_error (chunk_plan fp a c is) k = Some (p, s) ->
     0 < audio_len s <= c) /\
  (forall k p s p' s', nth_error (chunk_plan fp a c is) k = Some (p, s) ->
     nth_error (chunk_plan fp a c is) (S k) = Some (p', s') ->
     audio_len s = c /\ to_ms s = from_ms s') /\
  (forall p s, nth_error (chunk_plan fp a c is) 0 = Some (p, s) ->
     from_ms s = from_ms a) /\
  (forall p s, nth_error (chunk_plan fp a c is) (length (chunk_plan fp a c is) - 1) =
       Some (p, s) -> to_ms s = to_ms a) /\
  (0 < audio_len a <-> chunk_plan fp a c is <> []).
Proof.
  intros Hc HL Hr.
  rewrite PipeFacts.py_range_pos in Hr by exact Hc. injection Hr as <-.
  rewrite PipeFacts.chunk_plan_seq by lia.
  destruct (PipeFacts.ceil_bounds (audio_len a) c Hc HL) as [Hq0 [Hq1 Hq2]].
  set (q := (audio_len a + c - 1) / c) in *.
  set (n := Z.to_nat q).
  assert (Hn : Z.of_nat n = q) by (unfold n; lia).
  assert (Hin : forall k, (k < n)%nat -> Z.of_nat k * c + c <= audio_len a + c - 1).
  { intros k Hk. assert (Z.of_nat k + 1 <= q) by lia. nia. }
  split; [|split; [|split; [|split]]].
  - intros k p s H. rewrite PipeFacts.nth_error_map_seq in H.
    destruct (k <? n)%nat eqn:Hk; [|discriminate].
    apply Nat.ltb_lt in Hk. injection H as <- <-.
    rewrite PipeFacts.slice_len. specialize (Hin k Hk). lia.
  - intros k p s p' s' H H'. rewrite PipeFacts.nth_error_map_seq in H, H'.
    destruct (S k <? n)%nat eqn:Hk'; [|discriminate].
    apply Nat.ltb_lt in Hk'.
    replace (k <? n)%nat with true in H by (symmetry; apply Nat.ltb_lt; lia).
    injection H as <- <-. injection H' as <- <-.
    rewrite PipeFacts.slice_len, PipeFacts.slice_to, PipeFacts.slice_from.
    specialize (Hin (S k) Hk'). simpl (0 + S k)%nat.
    rewrite Nat2Z.inj_succ, Z.mul_succ_l in *. lia.
  - intros p s H. rewrite PipeFacts.nth_error_map_seq in H.
    destruct (0 <? n)%nat; [|discriminate]. injection H as <- <-.
    rewrite PipeFacts.slice_from. simpl. lia.
  - intros p s H. rewrite length_map, length_seq in H.
    rewrite PipeFacts.nth_error_map_seq in H.
    destruct (n - 1 <? n)%nat eqn:Hk; [|discriminate].
    apply Nat.ltb_lt in Hk. injection H as <- <-.
    rewrite PipeFacts.slice_to. simpl (0 + (n - 1))%nat.
    assert (Hkq : Z.of_nat (n - 1) * c + c = c * q).
    { rewrite <- Hn. rewrite Nat2Z.inj_sub by lia. ring. }
    rewrite Hkq, Z.min_r by lia. unfold audio_len. lia.
  - rewrite <- length_zero_iff_nil, length_map, length_seq. split.
    + intros HL0 Hn0. assert (q = 0) by lia. nia.
    + intros Hn0. assert (q <> 0) by lia.
      destruct (Z.eq_dec (audio_len a) 0) as [E|E]; [|lia].
      rewrite E in Hq1. nia.
Qed.

Lemma split_audio_partition_witness :
  audio_len (slice memo_audio 0 148000) = 148000 /\
  to_ms (slice memo_audio 0 148000) = from_ms (slice memo_audio 148000 296000).
Proof.
  destruct (split_audio_partition "memo.webm" memo_audio 148000 [0; 148000; 296000]
              ltac:(vm_compute; reflexivity) ltac:(vm_compute; discriminate)
              ltac:(vm_compute; reflexivity)) as [_ [H _]].
  apply (H 0%nat "memo.webm_chunk0.mp3" _ "memo.webm_chunk1.mp3" _);
    vm_compute; reflexivity.
Defined.

(** Over the ceiling, when the service fails on a chunk after transcribing
    the chunks before it, [transcribe_audio] raises the service's error
    and leaves that chunk's file and the files of all later chunks on
    disk: only the chunks transcribed before the failure are removed. *)
Theorem transcribe_audio_chunk_failure_leaves_files (mp3_export : audio -> file)
    (whisper : file -> option string) (fp : string) (w : world) (f : file) (c : Z)
    (is : list Z) (pre post : list (string * audio)) (p : string) (b : audio)
    (ts : list string) :
  fs w !! fp = Some f ->
  over_limit (size f) = true ->
  chunk_size_ms 25 (audio_of f) = Ok c ->
  py_range 0 (audio_len (audio_of f)) c = Ok is ->
  chunk_plan fp (audio_of f) c is = (pre ++ (p, b) :: post)%list ->
  Forall2 (fun pa t => whisper (mp3_export (snd pa)) = Some t) pre ts ->
  whisper (mp3_export b) = None ->
  fst (transcribe_audio mp3_export whisper fp w) = Raise ServiceError /\
  Forall (fun pa => fs (snd (transcribe_audio mp3_export whisper fp w)) !! fst pa = None)
         pre /\
  Forall (fun pa => fs (snd (transcribe_audio mp3_export whisper fp w)) !! fst pa =
                      Some (mp3_export (snd pa)))
         ((p, b) :: post).
Proof.
  intros Hf Hover Hc Hr Hplan Hts Hb.
  assert (Hc0 : c <> 0) by (intros ->; discriminate Hr).
  pose proof (Engine.plan_nodup fp (audio_of f) _ c is Hc0 Hr) as Hnd.
  rewrite Hplan in Hnd.
  set (plan := chunk_plan fp (audio_of f) c is) in *.
  set (m := exports mp3_export plan (fs w)).
  assert (Hnd' : List.NoDup (map fst pre ++ p :: map fst post)).
  { rewrite map_app in Hnd. exact Hnd. }
  assert (Hpre : Forall2 (fun q t => exists g, m !! q = Some g /\ whisper g = Some t)
                         (map fst pre) ts).
  { apply Engine.plan_files; [rewrite Hplan; exact Hnd| |exact Hts].
    intros pa Hpa. rewrite Hplan. apply in_or_app. now left. }
  assert (Hin : forall pa, In pa ((p, b) :: post) ->
                  m !! fst pa = Some (mp3_export (snd pa))).
  { intros [q a'] Hq. apply Engine.exports_lookup_in; [rewrite Hplan; exact Hnd|].
    rewrite Hplan. apply in_or_app. now right. }
  assert (Hrun : transcribe_audio mp3_export whisper fp w =
    (Raise ServiceError,
     mk_world (sheet w) (removes (map fst pre) m)
       ((log w ++ [ev_split fp]) ++ map ev_transcribe (map fst pre) ++
          [ev_transcribe p])%list)).
  { unfold transcribe_audio, bind at 1, getsize, bind at 1, read_file.
    rewrite Hf. simpl. rewrite Hover.
    unfold bind at 1. rewrite (Engine.split_audio_run mp3_export fp w f c is Hf Hc Hr).
    fold plan. unfold bind at 1.
    replace (map fst plan) with (map fst pre ++ p :: map fst post)%list
      by (rewrite Hplan, map_app; reflexivity).
    fold m.
    rewrite (PipeFacts.transcribe_chunks_fail whisper (map fst pre) p (map fst post) ts ""
               (mk_world (sheet w) m (log w ++ [ev_split fp])%list) (mp3_export b)
               Hnd' Hpre); [reflexivity| |exact Hb].
    apply (Hin (p, b)). now left. }
  rewrite Hrun. simpl. split; [reflexivity|split].
  - apply List.Forall_forall. intros pa Hpa. apply Engine.removes_lookup_in.
    now apply in_map.
  - apply List.Forall_forall. intros pa Hpa.
    rewrite Engine.removes_lookup_other; [now apply Hin|].
    intros Hq. apply (PipeFacts.nodup_app_disjoint _ _ _ Hnd' Hq).
    destruct Hpa as [<-|Hpa]; [now left|right; now apply in_map].
Qed.

Lemma transcribe_audio_chunk_failure_leaves_files_witness :
  fst (transcribe_audio mock_export
         (fun g => if from_ms (audio_of g) =? 148000 then None else Some "x")
         "memo.webm" memo_world) = Raise ServiceError.
Proof.
  apply (transcribe_audio_chunk_failure_leaves_files mock_export
           (fun g => if from_ms (audio_of g) =? 148000 then None else Some "x")
           "memo.webm" memo_world (mk_file (60 * 1024 * 1024) memo_audio) 148000
           [0; 148000; 296000]
           [("memo.webm_chunk0.mp3", slice memo_audio 0 148000)]
           [("memo.webm_chunk2.mp3", slice memo_audio 296000 444000)]
           "memo.webm_chunk1.mp3" (slice memo_audio 148000 296000) ["x"]).
  - vm_compute. reflexivity.
  - vm_compute. reflexivity.
  - vm_compute. reflexivity.
  - vm_compute. reflexivity.
  - vm_compute. reflexivity.
  - constructor; [vm_compute; reflexivity|constructor].
  - vm_compute. reflexivity.
Defined.

Module TaskFacts.


End TaskFacts.




